(** * i64: a bit field held in one 64-bit word

    A shallow embedding of the Go package [i64] (file [bits.go]) and the
    verification of its documented behaviour.

    Go's [uint64] and [int] values are modelled as [Z]; every operation that
    can leave the machine range has its wrap-around written out.  [int] is
    taken to be 64 bits wide, as on every 64-bit Go target. *)

From Stdlib Require Import ZArith List Bool Lia String Ascii.
From Stdlib Require Import Sorted Permutation FinFun.
From Stdlib Require Import DecimalString DecimalPos DecimalZ.
Import ListNotations.

Local Open Scope Z_scope.

(** ** Go's fixed-width integers *)

Module GoInt.

Definition uint64_ok (x : Z) : Prop := 0 <= x < 2 ^ 64.
Definition int_ok (n : Z) : Prop := - 2 ^ 63 <= n < 2 ^ 63.

(** The conversion [uint64(n)] of an [int]: the two's complement bits are
    kept. *)
Definition to_uint64 (n : Z) : Z := n mod 2 ^ 64.

(** The result of an [int] operation, wrapped into the signed range. *)
Definition wrap_int (n : Z) : Z := (n + 2 ^ 63) mod 2 ^ 64 - 2 ^ 63.

Definition add_int (x y : Z) : Z := wrap_int (x + y).

(** [x - y] on [uint64]. *)
Definition sub64 (x y : Z) : Z := (x - y) mod 2 ^ 64.

(** [x << s] on [uint64] with an unsigned count: Go shifts the operand [s]
    times by one, so a count of 64 or more leaves no bit. *)
Definition shl64 (x s : Z) : Z :=
  if s <? 64 then Z.shiftl x s mod 2 ^ 64 else 0.

(** [^x] on [uint64]: exclusive or with the all-ones word. *)
Definition not64 (x : Z) : Z := Z.lxor x (2 ^ 64 - 1).

End GoInt.
Import GoInt.

(** ** The functions of [math/bits] used by the package

    These follow the documentation of Go's standard library: each one counts
    bits of a 64-bit word. *)

Module GoBits.

(** [ctz_scan fuel i x] counts the zero bits of [x] at positions
    [i, i+1, ...], stopping at the first one bit or after [fuel] bits. *)
Fixpoint ctz_scan (fuel : nat) (i : Z) (x : Z) : Z :=
  match fuel with
  | O => 0
  | S f => if Z.testbit x i then 0 else 1 + ctz_scan f (i + 1) x
  end.

(** Number of trailing zero bits; 64 for [x = 0]. *)
Definition TrailingZeros64 (x : Z) : Z := ctz_scan 64 0 x.

(** [clz_scan n x] counts the zero bits of [x] at positions
    [n-1, n-2, ...], stopping at the first one bit or below position 0. *)
Fixpoint clz_scan (n : nat) (x : Z) : Z :=
  match n with
  | O => 0
  | S j => if Z.testbit x (Z.of_nat j) then 0 else 1 + clz_scan j x
  end.

(** Number of leading zero bits; 64 for [x = 0]. *)
Definition LeadingZeros64 (x : Z) : Z := clz_scan 64 x.

(** [ones_below n x] is the number of one bits of [x] at positions below
    [n]. *)
Fixpoint ones_below (n : nat) (x : Z) : Z :=
  match n with
  | O => 0
  | S j => (if Z.testbit x (Z.of_nat j) then 1 else 0) + ones_below j x
  end.

(** Population count of a 64-bit word. *)
Definition OnesCount64 (x : Z) : Z := ones_below 64 x.

(** [strconv.Itoa]: the decimal rendering of an integer. *)
Definition Itoa (x : Z) : string := NilZero.string_of_int (Z.to_int x).

End GoBits.
Import GoBits.

(** ** The package *)

(** [type Bits uint64] *)
Definition Bits := Z.

(** [type Iter uint64]: the bits still to visit. *)
Definition Iter := Z.

(** [func (b Bits) Set(n int) Bits] *)
Definition Bits_Set (b : Bits) (n : Z) : Bits :=
  Z.lor b (shl64 1 (to_uint64 n)).

(** [func (b Bits) Unset(n int) Bits] *)
Definition Bits_Unset (b : Bits) (n : Z) : Bits :=
  Z.land b (not64 (shl64 1 (to_uint64 n))).

(** [func (b Bits) Test(n int) bool] *)
Definition Bits_Test (b : Bits) (n : Z) : bool :=
  negb (Z.land b (shl64 1 (to_uint64 n)) =? 0).

(** [func (b Bits) Empty() bool] *)
Definition Bits_Empty (b : Bits) : bool := b =? 0.

(** [func (b Bits) Count() int] *)
Definition Bits_Count (b : Bits) : Z := OnesCount64 b.

(** [func (b Bits) Singular() bool]; [&&] evaluates [b-1] only for [b != 0]. *)
Definition Bits_Singular (b : Bits) : bool :=
  negb (b =? 0) && (Z.land b (sub64 b 1) =? 0).

(** [func (b Bits) Least() int] *)
Definition Bits_Least (b : Bits) : Z :=
  if b =? 0 then -1 else TrailingZeros64 b.

(** [func (b Bits) Most() int] *)
Definition Bits_Most (b : Bits) : Z :=
  if b =? 0 then -1 else 63 - LeadingZeros64 b.

(** [func (b Bits) Iter() Iter] *)
Definition Bits_Iter (b : Bits) : Iter := b.

(** [func (it *Iter) Next() int]: the result and the iterator afterwards. *)
Definition Iter_Next (it : Iter) : Z * Iter :=
  let b := it in
  if b =? 0 then (-1, it)
  else (TrailingZeros64 b, Z.land b (sub64 b 1)).

(** [func Of(bits ...int) Bits]: the loop over the arguments, from the
    field built so far. *)
Fixpoint Of_loop (b : Bits) (bits : list Z) : Bits :=
  match bits with
  | [] => b
  | n :: rest =>
      Of_loop (if (n >=? 0) && (n <? 64) then Bits_Set b n else b) rest
  end.

Definition Of (bits : list Z) : Bits := Of_loop 0 bits.

(** The loop of [Range]: [for n := low; n <= high; n += step].  The loop has
    no bound of its own, so the model counts iterations down from [fuel] and
    answers [None] when they run out. *)
Fixpoint Range_loop (fuel : nat) (n high step : Z) (b : Bits) : option Bits :=
  match fuel with
  | O => None
  | S f =>
      if n <=? high
      then Range_loop f (add_int n step) high step (Bits_Set b n)
      else Some b
  end.

(** [func Range(low, high, step int) Bits] *)
Definition Range (fuel : nat) (low high step : Z) : option Bits :=
  let low := if low <? 0 then 0 else low in
  let high := if high >? 63 then 63 else high in
  Range_loop fuel low high step 0.

(** Calling [Next] until it answers a negative number, keeping the answers:
    the loop [for x := it.Next(); x >= 0; x = it.Next()] of the tests and of
    [String]. *)
Fixpoint drain (fuel : nat) (it : Iter) : option (list Z) :=
  match fuel with
  | O => None
  | S f =>
      let (x, it') := Iter_Next it in
      if x >=? 0
      then option_map (cons x) (drain f it')
      else Some []
  end.

(** The loop of [String]: [sb] is the builder's contents, [sep] the
    separator written before the next number. *)
Fixpoint String_loop (fuel : nat) (it : Iter) (sb sep : string)
  : option string :=
  match fuel with
  | O => None
  | S f =>
      let (x, it') := Iter_Next it in
      if x >=? 0
      then String_loop f it' (sb ++ sep ++ Itoa x) " "
      else Some sb
  end.

(** [func (b Bits) String() string] *)
Definition Bits_String (fuel : nat) (b : Bits) : option string :=
  String_loop fuel (Bits_Iter b) "" "".

(** [n] calls of [Next], keeping only the iterator. *)
Fixpoint Next_times (n : nat) (it : Iter) : Iter :=
  match n with
  | O => it
  | S k => Next_times k (snd (Iter_Next it))
  end.

(** ** Vocabulary of the specification *)

(** [t] is the position of the lowest one bit of the word [x]. *)
Definition lowest_bit (x t : Z) : Prop :=
  0 <= t /\ Z.testbit x t = true /\
  forall j, 0 <= j < t -> Z.testbit x j = false.

(** The lowest and the highest set position of a field, in terms of
    [Test]. *)
Definition is_lowest_set (b : Bits) (n : Z) : Prop :=
  0 <= n <= 63 /\ Bits_Test b n = true /\
  forall m, 0 <= m < n -> Bits_Test b m = false.

Definition is_highest_set (b : Bits) (n : Z) : Prop :=
  0 <= n <= 63 /\ Bits_Test b n = true /\
  forall m, n < m <= 63 -> Bits_Test b m = false.

(** The positions of a field in ascending order, as a list without
    repetition. *)
Definition ascending (l : list Z) : Prop := StronglySorted Z.lt l.

Definition positions_of (b : Bits) (l : list Z) : Prop :=
  forall n, In n l <-> 0 <= n <= 63 /\ Bits_Test b n = true.

(** [clamp x lo hi] brings [x] into [[lo, hi]] from either side. *)
Definition clamp (x lo hi : Z) : Z :=
  if x <? lo then lo else if x >? hi then hi else x.

(** The bits of [Range] when both ends are clamped into [[0, 63]] from both
    sides. *)
Definition Range_clamped_both (low high step : Z) (b : Bits) : Prop :=
  forall p, Z.testbit b p = true <->
            exists k, 0 <= k /\ p = clamp low 0 63 + k * step /\
                      p <= clamp high 0 63.

(** The bits of [Range] when [low] is only raised to 0 and [high] only
    lowered to 63. *)
Definition Range_positions (low high step : Z) (b : Bits) : Prop :=
  forall p, Z.testbit b p = true <->
            exists k, 0 <= k /\ p = Z.max low 0 + k * step /\
                      p <= Z.min high 63.

(** Reading a decimal integer back. *)
Definition Atoi (s : string) : option Z :=
  option_map Z.of_int (NilZero.int_of_string s).

(** The pieces of [s] between occurrences of the byte [sep]; there is always
    at least one piece. *)
Fixpoint Split (sep : ascii) (s : string) : list string :=
  match s with
  | EmptyString => [EmptyString]
  | String c rest =>
      if Ascii.eqb c sep then EmptyString :: Split sep rest
      else match Split sep rest with
           | [] => [String c EmptyString]
           | w :: ws => String c w :: ws
           end
  end.

Definition nonempty (s : string) : bool :=
  match s with EmptyString => false | _ => true end.

(** The non-empty pieces of [s] between spaces. *)
Definition Fields (s : string) : list string :=
  filter nonempty (Split " " s).

Fixpoint has_char (c : ascii) (s : string) : bool :=
  match s with
  | EmptyString => false
  | String d rest => Ascii.eqb d c || has_char c rest
  end.

Definition is_digit (c : ascii) : bool :=
  let n := N_of_ascii c in ((48 <=? n) && (n <=? 57))%N.

Fixpoint all_digits (s : string) : bool :=
  match s with
  | EmptyString => true
  | String d rest => is_digit d && all_digits rest
  end.

(** ** The scenarios of the package's test *)

Example test_empty :
  drain 65 (Bits_Iter 0) = Some [] /\ Bits_String 65 0 = Some ""%string /\
  Bits_Count 0 = 0 /\ Bits_Singular 0 = false /\ Bits_Empty 0 = true.
Proof. vm_compute. repeat split. Qed.

Example test_43 :
  let b := Bits_Set 0 43 in
  drain 65 (Bits_Iter b) = Some [43] /\ Bits_String 65 b = Some "43"%string /\
  Bits_Count b = 1 /\ Bits_Singular b = true /\
  Bits_Least b = 43 /\ Bits_Most b = 43.
Proof. vm_compute. repeat split. Qed.

Example test_six :
  let b := Bits_Set (Bits_Set (Bits_Set (Bits_Set (Bits_Set (Bits_Set 0 2) 4) 5) 0) 12) 63 in
  drain 65 (Bits_Iter b) = Some [0; 2; 4; 5; 12; 63] /\
  Bits_String 65 b = Some "0 2 4 5 12 63"%string /\
  Bits_Count b = 6 /\ Bits_Least b = 0 /\ Bits_Most b = 63 /\
  drain 65 (Bits_Iter (Bits_Unset (Bits_Unset (Bits_Unset b 5) 63) 0))
    = Some [2; 4; 12].
Proof. vm_compute. repeat split. Qed.

(** ** Machine arithmetic *)

Lemma shl64_one_small n : 0 <= n <= 63 -> shl64 1 (to_uint64 n) = 2 ^ n.
Proof.
  intros H. unfold shl64, to_uint64.
  rewrite (Z.mod_small n) by lia.
  destruct (Z.ltb_spec n 64); [|lia].
  rewrite Z.shiftl_1_l. apply Z.mod_small.
  split; [lia|]. apply Z.pow_lt_mono_r; lia.
Qed.

Lemma shl64_one_large n :
  int_ok n -> n < 0 \/ 63 < n -> shl64 1 (to_uint64 n) = 0.
Proof.
  unfold int_ok, shl64, to_uint64. intros H Hn.
  destruct (Z.ltb_spec (n mod 2 ^ 64) 64) as [Hlt|]; [|reflexivity].
  exfalso. destruct Hn.
  - assert (n mod 2 ^ 64 = n + 2 ^ 64)
      by (symmetry; apply Z.mod_unique with (-1); lia).
    lia.
  - rewrite Z.mod_small in Hlt by lia. lia.
Qed.

(** The guarded shift is Go's unbounded one cut to 64 bits. *)
Lemma shl64_shiftl x s : 0 <= s -> shl64 x s = Z.shiftl x s mod 2 ^ 64.
Proof.
  intros Hs. unfold shl64. destruct (Z.ltb_spec s 64); [reflexivity|].
  rewrite Z.shiftl_mul_pow2 by lia.
  replace s with ((s - 64) + 64) by lia.
  rewrite Z.pow_add_r by lia.
  rewrite Z.mul_assoc, Z.mod_mul by lia. reflexivity.
Qed.

Lemma uint64_high_bits x i : uint64_ok x -> 64 <= i -> Z.testbit x i = false.
Proof.
  intros Hx Hi. rewrite <- (Z.mod_small x (2 ^ 64)) by exact Hx.
  apply Z.mod_pow2_bits_high. lia.
Qed.

Lemma uint64_of_bits x :
  (forall i, 64 <= i -> Z.testbit x i = false) -> uint64_ok x.
Proof.
  intros H. assert (E : x = x mod 2 ^ 64).
  { apply Z.bits_inj'. intros i Hi. rewrite Z.testbit_mod_pow2 by lia.
    destruct (Z.ltb_spec i 64); [reflexivity|]. now apply H. }
  rewrite E. apply Z.mod_pos_bound. lia.
Qed.

Lemma all_ones_bits i :
  Z.testbit (2 ^ 64 - 1) i = (0 <=? i) && (i <? 64).
Proof.
  change (2 ^ 64 - 1) with (Z.ones 64).
  destruct (Z.leb_spec 0 i), (Z.ltb_spec i 64); simpl.
  - apply Z.ones_spec_low; lia.
  - apply Z.ones_spec_high; lia.
  - apply Z.testbit_neg_r; lia.
  - apply Z.testbit_neg_r; lia.
Qed.

Lemma land_pow2 b n :
  0 <= n -> Z.land b (2 ^ n) = if Z.testbit b n then 2 ^ n else 0.
Proof.
  intros Hn. apply Z.bits_inj'. intros i Hi.
  rewrite Z.land_spec, Z.pow2_bits_eqb by lia.
  destruct (Z.eqb_spec n i) as [->|Hne].
  - destruct (Z.testbit b i); simpl.
    + rewrite Z.pow2_bits_eqb, Z.eqb_refl by lia. reflexivity.
    + now rewrite Z.bits_0.
  - rewrite andb_false_r. destruct (Z.testbit b n).
    + rewrite Z.pow2_bits_eqb by lia. symmetry. now apply Z.eqb_neq.
    + now rewrite Z.bits_0.
Qed.

(** ** Single bits *)

Lemma Bits_Test_testbit b n : 0 <= n <= 63 -> Bits_Test b n = Z.testbit b n.
Proof.
  intros H. unfold Bits_Test. rewrite shl64_one_small, land_pow2 by lia.
  destruct (Z.testbit b n); simpl; [|reflexivity].
  assert (0 < 2 ^ n) by (apply Z.pow_pos_nonneg; lia).
  destruct (Z.eqb_spec (2 ^ n) 0); [lia|reflexivity].
Qed.

Lemma Bits_Test_outside b n :
  int_ok n -> n < 0 \/ 63 < n -> Bits_Test b n = false.
Proof.
  intros H Hn. unfold Bits_Test. rewrite shl64_one_large by assumption.
  now rewrite Z.land_0_r.
Qed.

Lemma Bits_Set_bits b n i :
  0 <= n <= 63 -> Z.testbit (Bits_Set b n) i = Z.testbit b i || (n =? i).
Proof.
  intros H. unfold Bits_Set. rewrite shl64_one_small, Z.lor_spec by lia.
  destruct (Z.leb_spec 0 i).
  - now rewrite Z.pow2_bits_eqb by lia.
  - rewrite !Z.testbit_neg_r by lia. simpl. symmetry. apply Z.eqb_neq. lia.
Qed.

Lemma Bits_Unset_bits b n i :
  0 <= n <= 63 -> 0 <= i <= 63 ->
  Z.testbit (Bits_Unset b n) i = Z.testbit b i && negb (n =? i).
Proof.
  intros H Hi. unfold Bits_Unset, not64.
  rewrite shl64_one_small, Z.land_spec, Z.lxor_spec, all_ones_bits by lia.
  rewrite Z.pow2_bits_eqb by lia.
  destruct (Z.leb_spec 0 i), (Z.ltb_spec i 64); try lia. simpl.
  now rewrite xorb_true_r.
Qed.

Lemma Bits_Set_uint64 b n : uint64_ok b -> uint64_ok (Bits_Set b n).
Proof.
  intros Hb. apply uint64_of_bits. intros i Hi. unfold Bits_Set, shl64.
  rewrite Z.lor_spec, (uint64_high_bits b), orb_false_l by assumption.
  destruct (Z.ltb_spec (to_uint64 n) 64).
  - apply Z.mod_pow2_bits_high. lia.
  - apply Z.bits_0.
Qed.

Lemma Bits_Unset_uint64 b n : uint64_ok b -> uint64_ok (Bits_Unset b n).
Proof.
  intros Hb. apply uint64_of_bits. intros i Hi. unfold Bits_Unset.
  now rewrite Z.land_spec, (uint64_high_bits b) by assumption.
Qed.

(** C6.  For a position [n] in [[0, 63]], [Set(n)] makes [Test(n)] true and
    [Unset(n)] makes it false, and neither changes [Test(m)] at any other
    position [m] in [[0, 63]]. *)
Theorem Set_Unset_Test_valid (b n : Z) (Hn : 0 <= n <= 63) :
  Bits_Test (Bits_Set b n) n = true /\
  Bits_Test (Bits_Unset b n) n = false /\
  forall m, 0 <= m <= 63 -> m <> n ->
    Bits_Test (Bits_Set b n) m = Bits_Test b m /\
    Bits_Test (Bits_Unset b n) m = Bits_Test b m.
Proof.
  repeat split.
  - rewrite Bits_Test_testbit, Bits_Set_bits, Z.eqb_refl by lia.
    apply orb_true_r.
  - rewrite Bits_Test_testbit, Bits_Unset_bits, Z.eqb_refl by lia.
    apply andb_false_r.
  - rewrite !Bits_Test_testbit, Bits_Set_bits by lia.
    replace (n =? m) with false by (symmetry; apply Z.eqb_neq; lia).
    apply orb_false_r.
  - rewrite !Bits_Test_testbit, Bits_Unset_bits by lia.
    replace (n =? m) with false by (symmetry; apply Z.eqb_neq; lia).
    apply andb_true_r.
Qed.

Lemma Set_Unset_Test_valid_witness :
  0 <= 43 <= 63 /\
  Bits_Test (Bits_Set 10 43) 43 = true /\
  Bits_Test (Bits_Unset 10 43) 43 = false /\
  forall m, 0 <= m <= 63 -> m <> 43 ->
    Bits_Test (Bits_Set 10 43) m = Bits_Test 10 m /\
    Bits_Test (Bits_Unset 10 43) m = Bits_Test 10 m.
Proof. split; [lia | apply (Set_Unset_Test_valid 10 43); lia]. Defined.

(** C9.  For a position outside [[0, 63]], [Set] and [Unset] return the
    field as it was and [Test] answers false: the shift count is 64 or more,
    so the mask is the zero word. *)
Theorem Set_Unset_Test_outside (b n : Z)
  (Hb : uint64_ok b) (Hn : int_ok n) (Hout : n < 0 \/ n > 63) :
  Bits_Set b n = b /\ Bits_Unset b n = b /\ Bits_Test b n = false.
Proof.
  assert (Hout' : n < 0 \/ 63 < n) by lia.
  repeat split.
  - unfold Bits_Set. rewrite shl64_one_large by assumption. apply Z.lor_0_r.
  - unfold Bits_Unset, not64. rewrite shl64_one_large by assumption.
    rewrite Z.lxor_0_l. change (2 ^ 64 - 1) with (Z.ones 64).
    rewrite Z.land_ones by lia. apply Z.mod_small, Hb.
  - now apply Bits_Test_outside.
Qed.

Lemma Set_Unset_Test_outside_witness :
  (uint64_ok 10 /\ int_ok 64 /\ int_ok (-1)) /\
  (Bits_Set 10 64 = 10 /\ Bits_Unset 10 64 = 10 /\ Bits_Test 10 64 = false) /\
  (Bits_Set 10 (-1) = 10 /\ Bits_Unset 10 (-1) = 10 /\
   Bits_Test 10 (-1) = false).
Proof.
  split; [unfold uint64_ok, int_ok; lia|].
  split; apply Set_Unset_Test_outside; unfold uint64_ok, int_ok; lia.
Defined.

(** ** Construction from a list of positions *)

Lemma Of_loop_bits l : forall b i,
  Z.testbit (Of_loop b l) i = true <->
  Z.testbit b i = true \/ (In i l /\ 0 <= i <= 63).
Proof.
  induction l as [|n rest IH]; intros b i; simpl.
  - tauto.
  - rewrite IH.
    destruct (Z.geb_spec n 0), (Z.ltb_spec n 64); simpl;
      try (split; [intuition lia | intros [?|[[->|?] ?]]; auto; lia]).
    rewrite Bits_Set_bits, orb_true_iff, Z.eqb_eq by lia.
    split; [intuition (subst; auto; lia) | intros [?|[[->|?] ?]]; auto].
Qed.

Lemma Of_loop_uint64 l : forall b, uint64_ok b -> uint64_ok (Of_loop b l).
Proof.
  induction l as [|n rest IH]; intros b Hb; simpl; [assumption|].
  apply IH. destruct ((n >=? 0) && (n <? 64)); [|assumption].
  now apply Bits_Set_uint64.
Qed.

(** C8.  [Of] sets exactly the listed positions that lie in [[0, 63]]; the
    other arguments are skipped, and the result depends only on which
    positions are listed, not on how often or in which order. *)
Theorem Of_sets_listed_positions (l : list Z) :
  uint64_ok (Of l) /\
  (forall p, Z.testbit (Of l) p = true <-> In p l /\ 0 <= p <= 63) /\
  (forall p, int_ok p ->
             (Bits_Test (Of l) p = true <-> In p l /\ 0 <= p <= 63)) /\
  (forall l', (forall p, In p l <-> In p l') -> Of l' = Of l).
Proof.
  assert (Hbits : forall k p,
             Z.testbit (Of k) p = true <-> In p k /\ 0 <= p <= 63).
  { intros k p. unfold Of. rewrite Of_loop_bits, Z.bits_0.
    intuition discriminate. }
  split; [apply Of_loop_uint64; unfold uint64_ok; lia|].
  split; [apply Hbits|]. split.
  - intros p Hp. destruct (Z.ltb_spec p 0); [|destruct (Z.ltb_spec 63 p)].
    + rewrite Bits_Test_outside by (auto; lia).
      split; [discriminate | lia].
    + rewrite Bits_Test_outside by (auto; lia).
      split; [discriminate | lia].
    + rewrite Bits_Test_testbit by lia. apply Hbits.
  - intros l' Hsame. apply Z.bits_inj. intros p.
    apply eq_true_iff_eq. rewrite !Hbits, Hsame. reflexivity.
Qed.

Lemma Of_sets_listed_positions_witness :
  Of [2; 4; 5; 0; 12; 63; 4] = Of [0; 2; 4; 5; 12; 63] /\
  Bits_Test (Of [2; 4; 5; 0; 12; 63; 64; -1; 4]) 12 = true.
Proof.
  destruct (Of_sets_listed_positions [0; 2; 4; 5; 12; 63])
    as (_ & _ & _ & Hsame).
  destruct (Of_sets_listed_positions [2; 4; 5; 0; 12; 63; 64; -1; 4])
    as (_ & _ & Htest & _).
  split.
  - apply Hsame. intros p. simpl. tauto.
  - apply Htest; [unfold int_ok; lia | simpl; intuition lia].
Defined.

(** ** The lowest one bit and [x & (x-1)] *)

Lemma ctz_scan_spec fuel : forall i x,
  0 <= i ->
  let r := ctz_scan fuel i x in
  0 <= r <= Z.of_nat fuel /\
  (forall j, i <= j < i + r -> Z.testbit x j = false) /\
  (r < Z.of_nat fuel -> Z.testbit x (i + r) = true).
Proof.
  induction fuel as [|f IH]; intros i x Hi; cbn [ctz_scan].
  - cbv zeta. repeat split; intros; lia.
  - destruct (Z.testbit x i) eqn:Hbit; cbv zeta.
    + repeat split; try lia. intros _. now rewrite Z.add_0_r.
    + destruct (IH (i + 1) x ltac:(lia)) as (Hr & Hlow & Hhit).
      repeat split; try lia.
      * intros j Hj. destruct (Z.eq_dec j i) as [->|]; [assumption|].
        apply Hlow. lia.
      * intros Hlt. replace (i + (1 + ctz_scan f (i + 1) x))
          with (i + 1 + ctz_scan f (i + 1) x) by lia.
        apply Hhit. lia.
Qed.

Lemma lowest_bit_unique x t t' : lowest_bit x t -> lowest_bit x t' -> t = t'.
Proof.
  intros (H0 & Hset & Hlow) (H0' & Hset' & Hlow').
  destruct (Z.lt_trichotomy t t') as [Hlt|[Heq|Hgt]]; [|assumption|].
  - rewrite Hlow' in Hset by lia. discriminate.
  - rewrite Hlow in Hset' by lia. discriminate.
Qed.

Lemma TrailingZeros64_lowest x :
  uint64_ok x -> x <> 0 ->
  TrailingZeros64 x <= 63 /\ lowest_bit x (TrailingZeros64 x).
Proof.
  intros Hx Hnz. unfold TrailingZeros64.
  destruct (ctz_scan_spec 64 0 x ltac:(lia)) as (Hr & Hlow & Hhit).
  cbv zeta in *. simpl Z.of_nat in *.
  assert (Hlt : ctz_scan 64 0 x < 64).
  { destruct (Z.eq_dec (ctz_scan 64 0 x) 64) as [E|]; [|lia].
    exfalso. apply Hnz. apply Z.bits_inj'. intros j Hj. rewrite Z.bits_0.
    destruct (Z.ltb_spec j 64).
    - apply Hlow. lia.
    - now apply uint64_high_bits. }
  split; [lia|]. split; [lia|]. split.
  - now apply Hhit.
  - intros j Hj. apply Hlow. lia.
Qed.

Lemma pos_clear_lowest p :
  exists t, lowest_bit (Z.pos p) t /\
            Z.land (Z.pos p) (Z.pos p - 1) = Z.clearbit (Z.pos p) t.
Proof.
  induction p as [q _|q (t & (Ht & Hset & Hlow) & Hclr)|].
  - exists 0. split.
    + split; [lia|]. split; [|intros; lia].
      rewrite Pos2Z.inj_xI. apply Z.testbit_odd_0.
    + replace (Z.pos q~1 - 1) with (2 * Z.pos q) by lia.
      rewrite Pos2Z.inj_xI. apply Z.bits_inj'. intros i Hi.
      rewrite Z.land_spec, Z.clearbit_eqb.
      destruct (Z.eq_dec i 0) as [->|Hne].
      * rewrite Z.testbit_even_0. now rewrite andb_false_r.
      * replace i with (Z.succ (i - 1)) by lia.
        rewrite Z.testbit_odd_succ, Z.testbit_even_succ by lia.
        replace (0 =? Z.succ (i - 1)) with false
          by (symmetry; apply Z.eqb_neq; lia).
        now destruct (Z.testbit (Z.pos q) (i - 1)).
  - exists (Z.succ t). split.
    + split; [lia|]. split.
      * rewrite Pos2Z.inj_xO, Z.testbit_even_succ by lia. exact Hset.
      * intros j Hj. rewrite Pos2Z.inj_xO.
        destruct (Z.eq_dec j 0) as [->|Hne]; [apply Z.testbit_even_0|].
        replace j with (Z.succ (j - 1)) by lia.
        rewrite Z.testbit_even_succ by lia. apply Hlow. lia.
    + replace (Z.pos q~0 - 1) with (2 * (Z.pos q - 1) + 1) by lia.
      rewrite Pos2Z.inj_xO. apply Z.bits_inj'. intros i Hi.
      rewrite Z.land_spec, Z.clearbit_eqb.
      destruct (Z.eq_dec i 0) as [->|Hne].
      * now rewrite Z.testbit_even_0.
      * replace i with (Z.succ (i - 1)) by lia.
        rewrite Z.testbit_odd_succ, Z.testbit_even_succ by lia.
        rewrite <- Z.land_spec, Hclr, Z.clearbit_eqb.
        f_equal. f_equal.
        destruct (Z.eqb_spec t (i - 1)), (Z.eqb_spec (Z.succ t) (Z.succ (i - 1)));
          try reflexivity; lia.
  - exists 0. split.
    + split; [lia|]. split; [reflexivity | intros; lia].
    + reflexivity.
Qed.

Lemma clear_lowest x :
  uint64_ok x -> x <> 0 ->
  Z.land x (sub64 x 1) = Z.clearbit x (TrailingZeros64 x).
Proof.
  intros Hx Hnz. unfold sub64. rewrite Z.mod_small by (unfold uint64_ok in Hx; lia).
  destruct x as [|p|p]; [congruence| |unfold uint64_ok in Hx; lia].
  destruct (pos_clear_lowest p) as (t & Hlow & Hclr).
  rewrite Hclr. f_equal.
  apply (lowest_bit_unique (Z.pos p)); [assumption|].
  now apply TrailingZeros64_lowest.
Qed.

Lemma clearbit_uint64 x t : uint64_ok x -> uint64_ok (Z.clearbit x t).
Proof.
  intros Hx. apply uint64_of_bits. intros i Hi.
  now rewrite Z.clearbit_eqb, (uint64_high_bits x) by assumption.
Qed.

Lemma clearbit_lt x t :
  0 <= t -> Z.testbit x t = true -> Z.clearbit x t = x - 2 ^ t.
Proof.
  intros Ht Hset. rewrite Z.clearbit_spec'.
  symmetry. apply Z.sub_nocarry_ldiff.
  apply Z.bits_inj'. intros i Hi.
  rewrite Z.ldiff_spec, Z.pow2_bits_eqb, Z.bits_0 by lia.
  destruct (Z.eqb_spec t i) as [->|]; [now rewrite Hset|reflexivity].
Qed.

(** ** Population count *)

Lemma ones_below_bounds n x : 0 <= ones_below n x <= Z.of_nat n.
Proof.
  induction n as [|j IH]; cbn [ones_below]; [lia|].
  destruct (Z.testbit x (Z.of_nat j)); lia.
Qed.

Lemma ones_below_clearbit_above n : forall x t,
  Z.of_nat n <= t -> ones_below n (Z.clearbit x t) = ones_below n x.
Proof.
  induction n as [|j IH]; intros x t Ht; cbn [ones_below]; [reflexivity|].
  rewrite IH, Z.clearbit_eqb by lia.
  replace (t =? Z.of_nat j) with false by (symmetry; apply Z.eqb_neq; lia).
  now rewrite andb_true_r.
Qed.

Lemma ones_below_clearbit n : forall x t,
  0 <= t < Z.of_nat n -> Z.testbit x t = true ->
  ones_below n (Z.clearbit x t) = ones_below n x - 1.
Proof.
  induction n as [|j IH]; intros x t Ht Hset; cbn [ones_below]; [lia|].
  rewrite Z.clearbit_eqb.
  destruct (Z.eqb_spec t (Z.of_nat j)) as [E|Hne].
  - rewrite <- E, Hset. rewrite ones_below_clearbit_above by lia.
    cbn [andb negb]. lia.
  - cbn [negb]. rewrite andb_true_r, IH by (auto; lia). lia.
Qed.

Lemma ones_below_zero n x :
  ones_below n x = 0 ->
  forall i, 0 <= i < Z.of_nat n -> Z.testbit x i = false.
Proof.
  induction n as [|j IH]; cbn [ones_below]; intros H i Hi; [lia|].
  pose proof (ones_below_bounds j x).
  destruct (Z.testbit x (Z.of_nat j)) eqn:Hbit; [lia|].
  destruct (Z.eq_dec i (Z.of_nat j)) as [->|]; [assumption|].
  apply IH; lia.
Qed.

Lemma OnesCount64_bounds x : 0 <= OnesCount64 x <= 64.
Proof. apply (ones_below_bounds 64). Qed.

Lemma OnesCount64_zero x : uint64_ok x -> (OnesCount64 x = 0 <-> x = 0).
Proof.
  intros Hx. split; [|intros ->; reflexivity].
  intros H. apply Z.bits_inj'. intros i Hi. rewrite Z.bits_0.
  destruct (Z.ltb_spec i 64).
  - apply (ones_below_zero 64); [assumption|]. simpl. lia.
  - now apply uint64_high_bits.
Qed.

(** ** One call of [Next] *)

Lemma Iter_Next_zero : Iter_Next 0 = (-1, 0).
Proof. reflexivity. Qed.

Lemma Iter_Next_nonzero it :
  uint64_ok it -> it <> 0 ->
  Iter_Next it = (TrailingZeros64 it, Z.clearbit it (TrailingZeros64 it)).
Proof.
  intros Hit Hnz. unfold Iter_Next.
  destruct (Z.eqb_spec it 0); [contradiction|].
  now rewrite clear_lowest.
Qed.

Lemma OnesCount64_Next it :
  uint64_ok it -> it <> 0 ->
  OnesCount64 (snd (Iter_Next it)) = OnesCount64 it - 1.
Proof.
  intros Hit Hnz. rewrite Iter_Next_nonzero by assumption. simpl.
  destruct (TrailingZeros64_lowest it Hit Hnz) as (H63 & H0 & Hset & _).
  apply ones_below_clearbit; [simpl; lia | assumption].
Qed.

(** ** Full iteration *)

Lemma drain_spec fuel : forall it,
  uint64_ok it -> OnesCount64 it < Z.of_nat fuel ->
  exists l, drain fuel it = Some l /\
            ascending l /\
            (forall n, In n l <-> 0 <= n <= 63 /\ Z.testbit it n = true) /\
            Z.of_nat (List.length l) = OnesCount64 it.
Proof.
  induction fuel as [|f IH]; intros it Hit Hfuel.
  - pose proof (OnesCount64_bounds it). lia.
  - cbn [drain]. destruct (Z.eq_dec it 0) as [->|Hnz].
    + exists []. rewrite Iter_Next_zero. simpl.
      repeat split; try constructor; try tauto.
      intros [_ H]. now rewrite Z.bits_0 in H.
    + rewrite Iter_Next_nonzero by assumption.
      destruct (TrailingZeros64_lowest it Hit Hnz) as (H63 & H0 & Hset & Hlow).
      set (t := TrailingZeros64 it) in *.
      destruct (Z.geb_spec t 0); [|lia].
      destruct (IH (Z.clearbit it t)) as (l & Hl & Hasc & Hmem & Hlen).
      { now apply clearbit_uint64. }
      { unfold OnesCount64 in *. rewrite ones_below_clearbit by (auto; simpl; lia).
        lia. }
      exists (t :: l). rewrite Hl. simpl option_map.
      split; [reflexivity|]. split; [|split].
      * constructor; [assumption|]. apply Forall_forall. intros n Hn.
        apply Hmem in Hn. destruct Hn as [Hr Hn].
        rewrite Z.clearbit_eqb, andb_true_iff, negb_true_iff, Z.eqb_neq in Hn.
        destruct Hn as [Hn Hne].
        destruct (Z.lt_trichotomy t n) as [|[|Hgt]]; [assumption|contradiction|].
        rewrite Hlow in Hn by lia. discriminate.
      * intros n. simpl. rewrite Hmem, Z.clearbit_eqb, andb_true_iff,
          negb_true_iff, Z.eqb_neq.
        split.
        -- intros [<-|[Hr [Hn _]]]; split; auto; lia.
        -- intros [Hr Hn]. destruct (Z.eq_dec t n); [now left|right; auto].
      * unfold OnesCount64 in *.
        rewrite ones_below_clearbit in Hlen by (auto; simpl; lia).
        cbn [List.length]. lia.
Qed.

Lemma drain_more_fuel fuel : forall it l,
  drain fuel it = Some l -> drain (S fuel) it = Some l.
Proof.
  induction fuel as [|f IH]; intros it l H; [discriminate|].
  cbn [drain] in *. destruct (Iter_Next it) as [x it'].
  destruct (x >=? 0); [|assumption].
  destruct (drain f it') as [l'|] eqn:E; [|discriminate].
  now rewrite (IH _ _ E).
Qed.

Lemma drain_fuel_le fuel fuel' it l :
  (fuel <= fuel')%nat -> drain fuel it = Some l -> drain fuel' it = Some l.
Proof.
  induction 1 as [|m _ IH]; intros H; [assumption|].
  apply drain_more_fuel. now apply IH.
Qed.

Lemma ascending_NoDup l : ascending l -> NoDup l.
Proof.
  induction 1 as [|a l Hs IH Hall]; constructor; [|assumption].
  intros Hin. rewrite Forall_forall in Hall. specialize (Hall _ Hin). lia.
Qed.

Lemma drain_64 it :
  uint64_ok it ->
  exists l, (forall fuel, (65 <= fuel)%nat -> drain fuel it = Some l) /\
            ascending l /\
            (forall n, In n l <-> 0 <= n <= 63 /\ Z.testbit it n = true) /\
            Z.of_nat (List.length l) = OnesCount64 it.
Proof.
  intros Hit. destruct (drain_spec 65 it Hit) as (l & Hl & Hrest).
  { pose proof (OnesCount64_bounds it). lia. }
  exists l. split; [|exact Hrest].
  intros fuel Hfuel. now apply (drain_fuel_le 65).
Qed.

Lemma drain_positions b :
  uint64_ok b ->
  exists l,
    (forall fuel, (65 <= fuel)%nat -> drain fuel (Bits_Iter b) = Some l) /\
    ascending l /\ NoDup l /\ positions_of b l /\
    Z.of_nat (List.length l) = Bits_Count b.
Proof.
  intros Hb. destruct (drain_64 b Hb) as (l & Hl & Hasc & Hmem & Hlen).
  exists l. split; [assumption|]. split; [assumption|].
  split; [now apply ascending_NoDup|]. split; [|assumption].
  intros n. rewrite Hmem. split; intros [Hr Ht]; split; try assumption.
  - now rewrite Bits_Test_testbit.
  - now rewrite Bits_Test_testbit in Ht.
Qed.

(** C2.  Calling [Next] on [b.Iter()] until it answers -1 gives the
    positions of [b] in strictly ascending order, each once: exactly the
    positions of [[0, 63]] at which [Test] is true, [Count()] of them. *)
Theorem iteration_yields_positions (b : Z) (Hb : uint64_ok b) :
  exists l,
    (forall fuel, (65 <= fuel)%nat -> drain fuel (Bits_Iter b) = Some l) /\
    ascending l /\ NoDup l /\ positions_of b l /\
    Z.of_nat (List.length l) = Bits_Count b.
Proof. exact (drain_positions b Hb). Qed.

Lemma iteration_yields_positions_witness :
  uint64_ok 5 /\
  exists l,
    (forall fuel, (65 <= fuel)%nat -> drain fuel (Bits_Iter 5) = Some l) /\
    ascending l /\ NoDup l /\ positions_of 5 l /\
    Z.of_nat (List.length l) = Bits_Count 5.
Proof.
  split; [unfold uint64_ok; lia|].
  apply (iteration_yields_positions 5). unfold uint64_ok; lia.
Defined.

(** C3.  On a non-zero iterator [Next] answers the lowest remaining
    position and clears it; on the zero iterator it answers -1 and leaves the
    iterator alone, so every later call answers -1 again. *)
Theorem Next_lowest_or_exhausted (it : Z) (Hit : uint64_ok it) :
  (it <> 0 ->
   let n := fst (Iter_Next it) in
   let it' := snd (Iter_Next it) in
   0 <= n <= 63 /\ lowest_bit it n /\ uint64_ok it' /\
   forall m, Z.testbit it' m = Z.testbit it m && negb (n =? m)) /\
  (it = 0 ->
   forall k, Next_times k it = 0 /\ fst (Iter_Next (Next_times k it)) = -1).
Proof.
  split.
  - intros Hnz. rewrite Iter_Next_nonzero by assumption. cbn [fst snd].
    destruct (TrailingZeros64_lowest it Hit Hnz) as (H63 & Hlow).
    pose proof Hlow as (H0 & _).
    split; [lia|]. split; [exact Hlow|].
    split; [now apply clearbit_uint64|].
    intros m. apply Z.clearbit_eqb.
  - intros ->. induction k as [|k IH]; [split; reflexivity|].
    cbn [Next_times]. rewrite Iter_Next_zero. exact IH.
Qed.

Lemma Next_lowest_or_exhausted_witness :
  uint64_ok 12 /\ 12 <> 0 /\
  fst (Iter_Next 12) = 2 /\ snd (Iter_Next 12) = 8 /\ lowest_bit 12 2 /\
  forall k, Next_times k 0 = 0 /\ fst (Iter_Next (Next_times k 0)) = -1.
Proof.
  split; [unfold uint64_ok; lia|]. split; [lia|].
  split; [reflexivity|]. split; [reflexivity|].
  destruct (Next_lowest_or_exhausted 12) as [Hnz _];
    [unfold uint64_ok; lia|].
  destruct (Next_lowest_or_exhausted 0) as [_ Hz];
    [unfold uint64_ok; lia|].
  split; [apply Hnz; lia | apply Hz; reflexivity].
Defined.

(** ** Counting the calls of [Next] *)

Lemma Next_times_count k : forall it,
  uint64_ok it -> Z.of_nat k <= OnesCount64 it ->
  uint64_ok (Next_times k it) /\
  OnesCount64 (Next_times k it) = OnesCount64 it - Z.of_nat k.
Proof.
  induction k as [|k IH]; intros it Hit Hk; cbn [Next_times].
  - split; [assumption|]. simpl. lia.
  - assert (Hnz : it <> 0)
      by (intros ->; change (OnesCount64 0) with 0 in Hk; lia).
    pose proof (OnesCount64_Next it Hit Hnz) as Hstep.
    destruct (IH (snd (Iter_Next it))) as (Hok & Hcount).
    + rewrite Iter_Next_nonzero by assumption. now apply clearbit_uint64.
    + lia.
    + split; [assumption|]. lia.
Qed.

(** C10.  A call of [Next] on a non-zero iterator clears its lowest one bit
    and so leaves a strictly smaller word; starting from [b.Iter()] the
    iterator is zero after [b.Count()] calls and not before. *)
Theorem iteration_terminates_after_Count :
  (forall it, uint64_ok it -> it <> 0 ->
     snd (Iter_Next it) = Z.clearbit it (TrailingZeros64 it) /\
     lowest_bit it (TrailingZeros64 it) /\
     0 <= snd (Iter_Next it) < it) /\
  (forall b, uint64_ok b ->
     Next_times (Z.to_nat (Bits_Count b)) (Bits_Iter b) = 0 /\
     forall k, (k < Z.to_nat (Bits_Count b))%nat ->
               Next_times k (Bits_Iter b) <> 0).
Proof.
  split.
  - intros it Hit Hnz. rewrite Iter_Next_nonzero by assumption. cbn [snd].
    destruct (TrailingZeros64_lowest it Hit Hnz) as (H63 & Hlow).
    pose proof Hlow as (H0 & Hset & _).
    split; [reflexivity|]. split; [assumption|].
    pose proof (clearbit_uint64 it (TrailingZeros64 it) Hit) as [Hge _].
    rewrite clearbit_lt in * by assumption.
    assert (0 < 2 ^ TrailingZeros64 it) by (apply Z.pow_pos_nonneg; lia).
    lia.
  - intros b Hb. unfold Bits_Count, Bits_Iter.
    pose proof (OnesCount64_bounds b) as Hbound. split.
    + destruct (Next_times_count (Z.to_nat (OnesCount64 b)) b Hb)
        as (Hok & Hcount); [lia|].
      apply OnesCount64_zero; [assumption|]. lia.
    + intros k Hk.
      destruct (Next_times_count k b Hb) as (Hok & Hcount); [lia|].
      intros Hz. rewrite Hz in Hcount.
      change (OnesCount64 0) with 0 in Hcount. lia.
Qed.

Lemma iteration_terminates_after_Count_witness :
  (uint64_ok 12 /\ 12 <> 0) /\
  0 <= snd (Iter_Next 12) < 12 /\
  Next_times (Z.to_nat (Bits_Count 12)) (Bits_Iter 12) = 0.
Proof.
  destruct iteration_terminates_after_Count as [Hstep Hcount].
  split; [unfold uint64_ok; lia|]. split.
  - apply Hstep; unfold uint64_ok; lia.
  - apply Hcount. unfold uint64_ok; lia.
Defined.

(** ** Aggregate queries *)

(** C7.  [Singular] is the test [b != 0 && b&(b-1) == 0], and it holds
    exactly when [Count()] is 1. *)
Theorem Singular_iff_Count_one (b : Z) (Hb : uint64_ok b) :
  Bits_Singular b = negb (b =? 0) && (Z.land b ((b - 1) mod 2 ^ 64) =? 0) /\
  (Bits_Singular b = true <-> Bits_Count b = 1).
Proof.
  split; [reflexivity|].
  unfold Bits_Singular, Bits_Count.
  destruct (Z.eqb_spec b 0) as [->|Hnz]; cbn [negb andb].
  - split; [discriminate | cbn; lia].
  - pose proof (OnesCount64_Next b Hb Hnz) as Hstep.
    rewrite Iter_Next_nonzero in Hstep by assumption. cbn [snd] in Hstep.
    rewrite clear_lowest, Z.eqb_eq by assumption.
    rewrite <- (OnesCount64_zero (Z.clearbit b (TrailingZeros64 b)))
      by now apply clearbit_uint64.
    lia.
Qed.

Lemma Singular_iff_Count_one_witness :
  uint64_ok 8 /\ Bits_Singular 8 = true /\ Bits_Count 8 = 1.
Proof.
  assert (H : uint64_ok 8) by (unfold uint64_ok; lia).
  split; [exact H|]. split; [reflexivity|].
  apply (Singular_iff_Count_one 8 H). reflexivity.
Defined.

Lemma clz_scan_spec n : forall x,
  let r := clz_scan n x in
  0 <= r <= Z.of_nat n /\
  (forall j, Z.of_nat n - r <= j < Z.of_nat n -> Z.testbit x j = false) /\
  (r < Z.of_nat n -> Z.testbit x (Z.of_nat n - 1 - r) = true).
Proof.
  induction n as [|j IH]; intros x; cbn [clz_scan].
  - cbv zeta. repeat split; intros; lia.
  - destruct (Z.testbit x (Z.of_nat j)) eqn:Hbit; cbv zeta.
    + repeat split; try lia. intros _.
      replace (Z.of_nat (S j) - 1 - 0) with (Z.of_nat j) by lia. assumption.
    + destruct (IH x) as (Hr & Hhigh & Hhit).
      repeat split; try lia.
      * intros i Hi. destruct (Z.eq_dec i (Z.of_nat j)) as [->|]; [assumption|].
        apply Hhigh. lia.
      * intros Hlt.
        replace (Z.of_nat (S j) - 1 - (1 + clz_scan j x))
          with (Z.of_nat j - 1 - clz_scan j x) by lia.
        apply Hhit. lia.
Qed.

Lemma LeadingZeros64_highest x :
  uint64_ok x -> x <> 0 ->
  0 <= LeadingZeros64 x <= 63 /\
  Z.testbit x (63 - LeadingZeros64 x) = true /\
  forall j, 63 - LeadingZeros64 x < j -> Z.testbit x j = false.
Proof.
  intros Hx Hnz. unfold LeadingZeros64.
  destruct (clz_scan_spec 64 x) as (Hr & Hhigh & Hhit).
  cbv zeta in *. change (Z.of_nat 64) with 64 in *.
  assert (Hlt : clz_scan 64 x < 64).
  { destruct (Z.eq_dec (clz_scan 64 x) 64) as [E|]; [|lia].
    exfalso. apply Hnz. apply Z.bits_inj'. intros j Hj. rewrite Z.bits_0.
    destruct (Z.ltb_spec j 64).
    - apply Hhigh. lia.
    - now apply uint64_high_bits. }
  split; [lia|]. split.
  - replace (63 - clz_scan 64 x) with (64 - 1 - clz_scan 64 x) by lia.
    now apply Hhit.
  - intros j Hj. destruct (Z.ltb_spec j 64).
    + apply Hhigh. lia.
    + now apply uint64_high_bits.
Qed.

(** C4.  On a non-empty field [Least] is the count of trailing zero bits and
    is the lowest set position, [Most] is 63 minus the count of leading zero
    bits and is the highest set position; each answers -1 exactly on the
    empty field. *)
Theorem Least_Most_positions (b : Z) (Hb : uint64_ok b) :
  (Bits_Empty b = false ->
   Bits_Least b = TrailingZeros64 b /\ is_lowest_set b (Bits_Least b) /\
   Bits_Most b = 63 - LeadingZeros64 b /\ is_highest_set b (Bits_Most b)) /\
  (Bits_Least b = -1 <-> Bits_Empty b = true) /\
  (Bits_Most b = -1 <-> Bits_Empty b = true).
Proof.
  unfold Bits_Empty, Bits_Least, Bits_Most.
  destruct (Z.eqb_spec b 0) as [->|Hnz].
  - split; [discriminate|]. split; split; reflexivity.
  - destruct (TrailingZeros64_lowest b Hb Hnz) as (H63 & H0 & Hset & Hlow).
    destruct (LeadingZeros64_highest b Hb Hnz) as (Hlz & Hmset & Hhigh).
    split; [intros _|split; split; (discriminate || lia)].
    split; [reflexivity|]. split; [|split; [reflexivity|]].
    + split; [lia|]. split.
      * now rewrite Bits_Test_testbit by lia.
      * intros m Hm. rewrite Bits_Test_testbit by lia. now apply Hlow.
    + split; [lia|]. split.
      * now rewrite Bits_Test_testbit by lia.
      * intros m Hm. rewrite Bits_Test_testbit by lia. apply Hhigh. lia.
Qed.

Lemma Least_Most_positions_witness :
  uint64_ok 40 /\ Bits_Least 40 = 3 /\ Bits_Most 40 = 5 /\
  is_lowest_set 40 (Bits_Least 40) /\ is_highest_set 40 (Bits_Most 40).
Proof.
  assert (H : uint64_ok 40) by (unfold uint64_ok; lia).
  destruct (Least_Most_positions 40 H) as [Hne _].
  destruct (Hne eq_refl) as (_ & Hlow & _ & Hhigh).
  split; [exact H|]. split; [reflexivity|]. split; [reflexivity|].
  split; assumption.
Defined.

(** ** [Range] *)

Lemma add_int_small n step :
  0 <= n <= 63 -> 1 <= step <= 2 ^ 63 - 64 -> add_int n step = n + step.
Proof.
  intros Hn Hs. unfold add_int, wrap_int.
  rewrite Z.mod_small by lia. lia.
Qed.

Lemma Range_loop_more_fuel fuel : forall n high step b r,
  Range_loop fuel n high step b = Some r ->
  Range_loop (S fuel) n high step b = Some r.
Proof.
  induction fuel as [|f IH]; intros n high step b r H; [discriminate|].
  cbn [Range_loop] in *. destruct (n <=? high); [|assumption].
  now apply IH.
Qed.

Lemma Range_loop_fuel_le fuel fuel' n high step b r :
  (fuel <= fuel')%nat ->
  Range_loop fuel n high step b = Some r ->
  Range_loop fuel' n high step b = Some r.
Proof.
  induction 1 as [|m _ IH]; intros H; [assumption|].
  apply Range_loop_more_fuel. now apply IH.
Qed.

Lemma Range_loop_spec high step :
  high <= 63 -> 1 <= step <= 2 ^ 63 - 64 ->
  forall fuel n b,
    0 <= n -> uint64_ok b -> Z.max 0 (high - n + 1) < Z.of_nat fuel ->
    exists r, Range_loop fuel n high step b = Some r /\ uint64_ok r /\
              forall p, Z.testbit r p = true <->
                        Z.testbit b p = true \/
                        exists k, 0 <= k /\ p = n + k * step /\ p <= high.
Proof.
  intros Hhigh Hstep. induction fuel as [|f IH]; intros n b Hn Hb Hfuel; [lia|].
  cbn [Range_loop]. destruct (Z.leb_spec n high) as [Hle|Hgt].
  - rewrite add_int_small by lia.
    destruct (IH (n + step) (Bits_Set b n)) as (r & Hr & Hok & Hbits);
      [lia | now apply Bits_Set_uint64 | lia |].
    exists r. split; [assumption|]. split; [assumption|].
    intros p. rewrite Hbits, Bits_Set_bits, orb_true_iff, Z.eqb_eq by lia.
    split.
    + intros [[Hp|<-]|(k & Hk & -> & Hp)].
      * now left.
      * right. exists 0. lia.
      * right. exists (k + 1). lia.
    + intros [Hp|(k & Hk & -> & Hp)]; [now left; left|].
      destruct (Z.eq_dec k 0) as [->|Hk0].
      * left; right. lia.
      * right. exists (k - 1). lia.
  - exists b. split; [reflexivity|]. split; [assumption|].
    intros p. split; [now left|].
    intros [Hp|(k & Hk & -> & Hp)]; [assumption|]. nia.
Qed.

(** A position past 63 is not pulled back to 63: [Range(100, 100, 1)] never
    enters its loop. *)
Lemma Range_low_above_63 :
  Range 65 100 100 1 = Some 0 /\ ~ Range_clamped_both 100 100 1 0.
Proof.
  split; [reflexivity|].
  intros H. destruct (H 63) as [_ Hset].
  rewrite Z.bits_0 in Hset. discriminate Hset.
  exists 0. cbv [clamp]. simpl. lia.
Qed.

(** C1, as the code has it.  [low] is only raised to 0 and [high] only
    lowered to 63; for a step that cannot carry the loop counter past the
    largest [int], the bits of [Range(low, high, step)] are exactly the
    positions [max(low,0) + k*step] up to [min(high,63)]. *)
Theorem Range_sets_stepped_positions (low high step : Z)
  (Hstep : 1 <= step <= 2 ^ 63 - 64) :
  exists b,
    (forall fuel, (65 <= fuel)%nat -> Range fuel low high step = Some b) /\
    uint64_ok b /\ Range_positions low high step b.
Proof.
  assert (Hrun : exists b,
             Range_loop 65 (Z.max low 0) (Z.min high 63) step 0 = Some b /\
             uint64_ok b /\ Range_positions low high step b).
  { destruct (Range_loop_spec (Z.min high 63) step ltac:(lia) Hstep
                65 (Z.max low 0) 0) as (b & Hb & Hok & Hbits);
      [lia | unfold uint64_ok; lia | lia |].
    exists b. split; [assumption|]. split; [assumption|].
    intros p. rewrite Hbits, Z.bits_0. intuition discriminate. }
  destruct Hrun as (b & Hb & Hok & Hpos).
  exists b. split; [|split; assumption].
  intros fuel Hfuel. unfold Range.
  replace (if low <? 0 then 0 else low) with (Z.max low 0)
    by (destruct (Z.ltb_spec low 0); lia).
  replace (if high >? 63 then 63 else high) with (Z.min high 63)
    by (rewrite Z.gtb_ltb; destruct (Z.ltb_spec 63 high); lia).
  now apply (Range_loop_fuel_le 65).
Qed.

Lemma Range_sets_stepped_positions_witness :
  1 <= 3 <= 2 ^ 63 - 64 /\
  exists b,
    (forall fuel, (65 <= fuel)%nat -> Range fuel (-4) 70 3 = Some b) /\
    uint64_ok b /\ Range_positions (-4) 70 3 b.
Proof.
  split; [lia|]. apply (Range_sets_stepped_positions (-4) 70 3). lia.
Defined.

(** With a step near the largest [int] the loop counter wraps around and
    the loop goes on from a negative position: [Range(2, 63, 1<<63 - 1)]
    sets positions 2 and 0. *)
Example Range_counter_wraps : Range 65 2 63 (2 ^ 63 - 1) = Some 5.
Proof. vm_compute. reflexivity. Qed.

(** ** Strings *)

Lemma string_app_assoc (a b c : string) :
  ((a ++ b) ++ c = a ++ (b ++ c))%string.
Proof. induction a as [|x a IH]; simpl; [reflexivity|now rewrite IH]. Qed.

Lemma string_app_nil_r (a : string) : (a ++ "" = a)%string.
Proof. induction a as [|x a IH]; simpl; [reflexivity|now rewrite IH]. Qed.

Lemma uint_digits d : all_digits (NilEmpty.string_of_uint d) = true.
Proof. induction d; simpl; auto. Qed.

Lemma Itoa_digits x : 0 <= x -> all_digits (Itoa x) = true.
Proof.
  intros Hx. unfold Itoa. destruct x as [|p|p]; [reflexivity| |lia].
  simpl. destruct (Pos.to_uint p); try reflexivity; apply uint_digits.
Qed.

Lemma Itoa_nonempty x : 0 <= x -> nonempty (Itoa x) = true.
Proof.
  intros Hx. unfold Itoa. destruct x as [|p|p]; [reflexivity| |lia].
  simpl. destruct (Pos.to_uint p); reflexivity.
Qed.

Lemma digits_no_space s : all_digits s = true -> has_char " " s = false.
Proof.
  induction s as [|c s IH]; simpl; [reflexivity|].
  rewrite andb_true_iff. intros [Hc Hs]. rewrite (IH Hs), orb_false_r.
  destruct (Ascii.eqb_spec c " ") as [->|]; [discriminate Hc|reflexivity].
Qed.

Lemma Atoi_Itoa x : Atoi (Itoa x) = Some x.
Proof.
  unfold Atoi, Itoa. rewrite NilZero.isi.
  - simpl. now rewrite DecimalZ.of_to.
  - destruct x; simpl; try discriminate.
    intros E. injection E. apply DecimalPos.Unsigned.to_uint_nonnil.
  - destruct x; simpl; try discriminate.
    intros E. injection E. apply DecimalPos.Unsigned.to_uint_nonnil.
Qed.

Lemma Split_no_sep sep w : has_char sep w = false -> Split sep w = [w].
Proof.
  induction w as [|c w IH]; simpl; [reflexivity|].
  rewrite orb_false_iff. intros [Hc Hw]. now rewrite Hc, IH.
Qed.

Lemma Split_piece sep w rest :
  has_char sep w = false ->
  Split sep (w ++ String sep rest) = w :: Split sep rest.
Proof.
  induction w as [|c w IH]; simpl.
  - intros _. now rewrite Ascii.eqb_refl.
  - rewrite orb_false_iff. intros [Hc Hw]. now rewrite Hc, IH.
Qed.

Lemma Split_concat ws : forall w,
  Forall (fun v => has_char " " v = false) (w :: ws) ->
  Split " " (String.concat " " (w :: ws)) = w :: ws.
Proof.
  induction ws as [|v ws IH]; intros w Hall; inversion Hall; subst.
  - now apply Split_no_sep.
  - cbn [String.concat]. change (" " ++ ?s)%string with (String " " s).
    rewrite Split_piece by assumption. f_equal. now apply IH.
Qed.

Lemma Split_leading_space r : exists ws, Split " " (String " " r) = ""%string :: ws.
Proof. simpl. eauto. Qed.

Lemma Split_trailing_space r :
  exists w ws, Split " " (r ++ " ") = (w :: ws ++ [""%string])%list.
Proof.
  induction r as [|c r (w & ws & IH)]; simpl.
  - now exists ""%string, [].
  - rewrite IH. destruct (Ascii.eqb c " ").
    + now exists ""%string, (w :: ws).
    + now exists (String c w), ws.
Qed.

Lemma filter_nonempty_all ws :
  Forall (fun w => nonempty w = true) ws -> filter nonempty ws = ws.
Proof.
  induction 1 as [|w ws Hw _ IH]; simpl; [reflexivity|].
  now rewrite Hw, IH.
Qed.

Lemma map_Atoi_Itoa l : map Atoi (map Itoa l) = map Some l.
Proof.
  induction l as [|x l IH]; simpl; [reflexivity|].
  now rewrite Atoi_Itoa, IH.
Qed.

(** The text [String] builds from a list of positions. *)
Lemma rendering_spec l :
  Forall (fun n => 0 <= n) l ->
  let s := String.concat " " (map Itoa l) in
  Forall (fun w => all_digits w = true /\ nonempty w = true) (map Itoa l) /\
  (l <> [] -> Split " " s = map Itoa l) /\
  (forall r, s <> String " " r) /\
  (forall r, s <> (r ++ " ")%string) /\
  (s = ""%string <-> l = []) /\
  map Atoi (Fields s) = map Some l.
Proof.
  intros Hpos s.
  assert (Hwords : Forall (fun w => all_digits w = true /\ nonempty w = true)
                          (map Itoa l)).
  { apply Forall_map. eapply Forall_impl; [|exact Hpos].
    intros n Hn. split; [now apply Itoa_digits | now apply Itoa_nonempty]. }
  assert (Hfull : Forall (fun w => nonempty w = true) (map Itoa l))
    by (eapply Forall_impl; [|exact Hwords]; intros w [_ H]; exact H).
  assert (Hsplit : l <> [] -> Split " " s = map Itoa l).
  { intros Hne. destruct l as [|x l]; [contradiction|]. subst s.
    cbn [map]. apply Split_concat. cbn [map] in Hwords.
    eapply Forall_impl; [|exact Hwords].
    intros w [Hd _]. now apply digits_no_space. }
  split; [assumption|]. split; [assumption|].
  destruct l as [|x l].
  - subst s. cbn. repeat split; try discriminate.
    intros r. destruct r; discriminate.
  - specialize (Hsplit ltac:(discriminate)).
    split; [|split; [|split]].
    + intros r E. destruct (Split_leading_space r) as (ws & Hws).
      rewrite <- E, Hsplit in Hws. rewrite Hws in Hfull.
      inversion Hfull; subst. discriminate.
    + intros r E. destruct (Split_trailing_space r) as (w & ws & Hws).
      rewrite <- E, Hsplit in Hws. rewrite Hws in Hfull.
      inversion Hfull as [|? ? _ Htail]; subst.
      apply Forall_app in Htail. destruct Htail as [_ Hlast].
      inversion Hlast; subst. discriminate.
    + split; [|discriminate]. intros E. rewrite E in Hsplit.
      cbn in Hsplit. injection Hsplit as Hx _.
      pose proof (Forall_inv Hfull) as Hn. cbn [map] in Hn.
      rewrite <- Hx in Hn. discriminate.
    + unfold Fields. rewrite Hsplit, filter_nonempty_all by assumption.
      apply map_Atoi_Itoa.
Qed.

Lemma String_loop_drain fuel : forall it sb sep l,
  drain fuel it = Some l ->
  String_loop fuel it sb sep =
  Some (sb ++ match l with
              | [] => ""
              | _ => sep ++ String.concat " " (map Itoa l)
              end)%string.
Proof.
  induction fuel as [|f IH]; intros it sb sep l H; [discriminate|].
  cbn [drain String_loop] in *. destruct (Iter_Next it) as [x it'].
  destruct (x >=? 0).
  - destruct (drain f it') as [l'|] eqn:E; [|discriminate].
    injection H as <-. rewrite (IH _ _ _ _ E). f_equal.
    destruct l' as [|y l'].
    + cbn. now rewrite string_app_nil_r.
    + cbn [map String.concat]. now rewrite !string_app_assoc.
  - injection H as <-. now rewrite string_app_nil_r.
Qed.

(** C5.  [String] writes the positions of the field, in the ascending order
    of iteration, as decimal numbers with one space between neighbours and
    none at either end; the text is empty exactly for the empty field, and
    cutting it at the spaces and reading the numbers gives the positions
    back. *)
Theorem String_renders_positions (b : Z) (Hb : uint64_ok b) :
  exists l s,
    (forall fuel, (65 <= fuel)%nat -> drain fuel (Bits_Iter b) = Some l) /\
    (forall fuel, (65 <= fuel)%nat -> Bits_String fuel b = Some s) /\
    ascending l /\ positions_of b l /\
    s = String.concat " " (map Itoa l) /\
    Forall (fun w => all_digits w = true /\ nonempty w = true) (map Itoa l) /\
    (forall r, s <> String " " r) /\
    (forall r, s <> (r ++ " ")%string) /\
    (s = ""%string <-> Bits_Empty b = true) /\
    map Atoi (Fields s) = map Some l /\
    (Bits_Empty b = false -> Split " " s = map Itoa l).
Proof.
  destruct (drain_positions b Hb) as (l & Hl & Hasc & _ & Hmem & Hlen).
  assert (Hpos : Forall (fun n => 0 <= n) l).
  { apply Forall_forall. intros n Hn. apply Hmem in Hn. lia. }
  destruct (rendering_spec l Hpos)
    as (Hwords & Hsplit & Hlead & Htrail & Hempty & Hfields).
  assert (Hnil : l = [] <-> Bits_Empty b = true).
  { unfold Bits_Empty. rewrite Z.eqb_eq.
    rewrite <- (OnesCount64_zero b Hb). fold (Bits_Count b).
    rewrite <- Hlen. destruct l; simpl; split; (discriminate || lia || auto). }
  exists l, (String.concat " " (map Itoa l)).
  split; [assumption|]. split.
  { intros fuel Hfuel. unfold Bits_String.
    rewrite (String_loop_drain _ _ _ _ _ (Hl fuel Hfuel)).
    now destruct l. }
  split; [assumption|]. split; [assumption|]. split; [reflexivity|].
  split; [assumption|]. split; [assumption|]. split; [assumption|].
  split; [now rewrite Hempty|]. split; [assumption|].
  intros Hne. apply Hsplit. intros E. apply Hnil in E. congruence.
Qed.

Lemma String_renders_positions_witness :
  uint64_ok 1029 /\
  Bits_String 65 1029 = Some "0 2 10"%string /\
  exists l s,
    (forall fuel, (65 <= fuel)%nat -> drain fuel (Bits_Iter 1029) = Some l) /\
    (forall fuel, (65 <= fuel)%nat -> Bits_String fuel 1029 = Some s) /\
    ascending l /\ positions_of 1029 l /\
    s = String.concat " " (map Itoa l) /\
    Forall (fun w => all_digits w = true /\ nonempty w = true) (map Itoa l) /\
    (forall r, s <> String " " r) /\
    (forall r, s <> (r ++ " ")%string) /\
    (s = ""%string <-> Bits_Empty 1029 = true) /\
    map Atoi (Fields s) = map Some l /\
    (Bits_Empty 1029 = false -> Split " " s = map Itoa l).
Proof.
  assert (H : uint64_ok 1029) by (unfold uint64_ok; lia).
  split; [exact H|]. split; [reflexivity|].
  exact (String_renders_positions 1029 H).
Defined.

(** * Further properties of the package *)

(** ** The mask [1 << uint64(n)] at an arbitrary argument *)

Lemma to_uint64_range n : 0 <= to_uint64 n < 2 ^ 64.
Proof. unfold to_uint64. apply Z.mod_pos_bound. lia. Qed.

Lemma mask_value n :
  shl64 1 (to_uint64 n) = if to_uint64 n <? 64 then 2 ^ to_uint64 n else 0.
Proof.
  unfold shl64. pose proof (to_uint64_range n) as Hr.
  destruct (Z.ltb_spec (to_uint64 n) 64); [|reflexivity].
  rewrite Z.shiftl_1_l. apply Z.mod_small.
  split; [lia|]. apply Z.pow_lt_mono_r; lia.
Qed.

Lemma Bits_Test_any b n :
  Bits_Test b n = (to_uint64 n <? 64) && Z.testbit b (to_uint64 n).
Proof.
  unfold Bits_Test. rewrite mask_value. pose proof (to_uint64_range n) as Hr.
  destruct (Z.ltb_spec (to_uint64 n) 64); cbn [andb].
  - rewrite land_pow2 by lia.
    destruct (Z.testbit b (to_uint64 n)); [|reflexivity].
    assert (0 < 2 ^ to_uint64 n) by (apply Z.pow_pos_nonneg; lia).
    destruct (Z.eqb_spec (2 ^ to_uint64 n) 0); [lia|reflexivity].
  - now rewrite Z.land_0_r.
Qed.

Lemma Bits_Set_setbit b n : 0 <= n <= 63 -> Bits_Set b n = Z.setbit b n.
Proof.
  intros Hn. unfold Bits_Set. now rewrite shl64_one_small, Z.setbit_spec'.
Qed.

Lemma Bits_Unset_clearbit b n :
  uint64_ok b -> 0 <= n <= 63 -> Bits_Unset b n = Z.clearbit b n.
Proof.
  intros Hb Hn. apply Z.bits_inj'. intros i Hi. rewrite Z.clearbit_eqb.
  destruct (Z.ltb_spec i 64).
  - apply Bits_Unset_bits; lia.
  - rewrite (uint64_high_bits b), (uint64_high_bits (Bits_Unset b n));
      auto using Bits_Unset_uint64.
Qed.

(** ** How [Set] and [Unset] compose *)

(** X1.  [Set] and [Unset] are idempotent at every argument: doing either
    twice with the same position is doing it once. *)
Theorem Set_Unset_idempotent (b n : Z) :
  Bits_Set (Bits_Set b n) n = Bits_Set b n /\
  Bits_Unset (Bits_Unset b n) n = Bits_Unset b n.
Proof.
  unfold Bits_Set, Bits_Unset. split.
  - now rewrite <- Z.lor_assoc, Z.lor_diag.
  - now rewrite <- Z.land_assoc, Z.land_diag.
Qed.

(** X2.  The order of two [Set] calls, or of two [Unset] calls, does not
    matter; a [Set] and an [Unset] at different positions of [[0, 63]] can
    be swapped as well. *)
Theorem Set_Unset_commute (b n m : Z) :
  Bits_Set (Bits_Set b n) m = Bits_Set (Bits_Set b m) n /\
  Bits_Unset (Bits_Unset b n) m = Bits_Unset (Bits_Unset b m) n /\
  (0 <= n <= 63 -> 0 <= m <= 63 -> n <> m ->
   Bits_Unset (Bits_Set b n) m = Bits_Set (Bits_Unset b m) n).
Proof.
  split; [|split].
  - unfold Bits_Set. rewrite <- !Z.lor_assoc. f_equal. apply Z.lor_comm.
  - unfold Bits_Unset. rewrite <- !Z.land_assoc. f_equal. apply Z.land_comm.
  - intros Hn Hm Hne. unfold Bits_Set, Bits_Unset, not64.
    rewrite !shl64_one_small by lia. apply Z.bits_inj'. intros i Hi.
    rewrite Z.land_spec, !Z.lor_spec, Z.land_spec, Z.lxor_spec,
      all_ones_bits, !Z.pow2_bits_eqb by lia.
    destruct (Z.eqb_spec n i), (Z.eqb_spec m i), (Z.leb_spec 0 i),
      (Z.ltb_spec i 64), (Z.testbit b i); cbn; try reflexivity; lia.
Qed.

Lemma Set_Unset_commute_witness :
  Bits_Unset (Bits_Set 9 5) 3 = Bits_Set (Bits_Unset 9 3) 5.
Proof. apply (Set_Unset_commute 9 5 3); lia. Defined.

(** X3.  At a position of [[0, 63]], [Unset] undoes a [Set] that changed
    the field and [Set] undoes an [Unset] that changed it. *)
Theorem Set_Unset_undo (b n : Z) (Hb : uint64_ok b) (Hn : 0 <= n <= 63) :
  (Bits_Test b n = false -> Bits_Unset (Bits_Set b n) n = b) /\
  (Bits_Test b n = true -> Bits_Set (Bits_Unset b n) n = b).
Proof.
  rewrite Bits_Test_testbit by assumption. split; intros Ht.
  - rewrite Bits_Unset_clearbit, Bits_Set_setbit
      by (auto using Bits_Set_uint64).
    apply Z.bits_inj'. intros i Hi.
    rewrite Z.clearbit_eqb, Z.setbit_eqb by lia.
    destruct (Z.eqb_spec n i) as [<-|]; [now rewrite Ht|].
    cbn. apply andb_true_r.
  - rewrite Bits_Set_setbit, Bits_Unset_clearbit by assumption.
    apply Z.bits_inj'. intros i Hi.
    rewrite Z.setbit_eqb, Z.clearbit_eqb by lia.
    destruct (Z.eqb_spec n i) as [<-|]; [now rewrite Ht|].
    cbn. apply andb_true_r.
Qed.

Lemma Set_Unset_undo_witness :
  uint64_ok 9 /\ 0 <= 2 <= 63 /\
  Bits_Unset (Bits_Set 9 2) 2 = 9 /\ Bits_Set (Bits_Unset 9 3) 3 = 9.
Proof.
  assert (Hb : uint64_ok 9) by (unfold uint64_ok; lia).
  split; [exact Hb|]. split; [lia|]. split.
  - apply (Set_Unset_undo 9 2 Hb); [lia | reflexivity].
  - apply (Set_Unset_undo 9 3 Hb); [lia | reflexivity].
Defined.

(** X4.  Whatever its argument, [Set] never makes a [Test] that was true
    false, and [Unset] never makes a [Test] that was false true. *)
Theorem Set_only_adds_Unset_only_removes (b n m : Z) :
  (Bits_Test b m = true -> Bits_Test (Bits_Set b n) m = true) /\
  (Bits_Test (Bits_Unset b n) m = true -> Bits_Test b m = true).
Proof.
  rewrite !Bits_Test_any. unfold Bits_Set, Bits_Unset.
  rewrite Z.lor_spec, Z.land_spec.
  destruct (to_uint64 m <? 64), (Z.testbit b (to_uint64 m)); cbn;
    split; auto; discriminate.
Qed.

Lemma Set_only_adds_Unset_only_removes_witness :
  Bits_Test (Bits_Set 9 70) 3 = true.
Proof. apply (Set_only_adds_Unset_only_removes 9 70 3). reflexivity. Defined.

(** ** Counting *)

(** X5.  [Count] lies in [[0, 64]] and is 0 exactly on the empty field. *)
Theorem Count_range_and_Empty (b : Z) (Hb : uint64_ok b) :
  0 <= Bits_Count b <= 64 /\ (Bits_Empty b = true <-> Bits_Count b = 0).
Proof.
  split; [apply OnesCount64_bounds|].
  unfold Bits_Empty, Bits_Count. rewrite Z.eqb_eq.
  symmetry. now apply OnesCount64_zero.
Qed.

Lemma Count_range_and_Empty_witness :
  uint64_ok 0 /\ Bits_Empty 0 = true /\ Bits_Count 0 = 0.
Proof.
  assert (Hb : uint64_ok 0) by (unfold uint64_ok; lia).
  split; [exact Hb|]. split; [reflexivity|].
  apply (Count_range_and_Empty 0 Hb). reflexivity.
Defined.

Lemma setbit_same x n : 0 <= n -> Z.testbit x n = true -> Z.setbit x n = x.
Proof.
  intros Hn Ht. apply Z.bits_inj'. intros i Hi. rewrite Z.setbit_eqb by lia.
  destruct (Z.eqb_spec n i) as [<-|]; [now rewrite Ht|reflexivity].
Qed.

Lemma clearbit_same x n : Z.testbit x n = false -> Z.clearbit x n = x.
Proof.
  intros Ht. apply Z.bits_inj'. intros i Hi. rewrite Z.clearbit_eqb.
  destruct (Z.eqb_spec n i) as [<-|]; [now rewrite Ht|apply andb_true_r].
Qed.

Lemma clearbit_setbit x n :
  0 <= n -> Z.testbit x n = false -> Z.clearbit (Z.setbit x n) n = x.
Proof.
  intros Hn Ht. apply Z.bits_inj'. intros i Hi.
  rewrite Z.clearbit_eqb, Z.setbit_eqb by lia.
  destruct (Z.eqb_spec n i) as [<-|]; [now rewrite Ht|apply andb_true_r].
Qed.

(** X6.  At a position of [[0, 63]], [Set] raises [Count] by one when the
    position was clear and leaves it alone otherwise; [Unset] lowers it by
    one when the position was set and leaves it alone otherwise. *)
Theorem Count_after_Set_Unset (b n : Z)
  (Hb : uint64_ok b) (Hn : 0 <= n <= 63) :
  Bits_Count (Bits_Set b n) =
    Bits_Count b + (if Bits_Test b n then 0 else 1) /\
  Bits_Count (Bits_Unset b n) =
    Bits_Count b - (if Bits_Test b n then 1 else 0).
Proof.
  rewrite Bits_Test_testbit, Bits_Set_setbit, Bits_Unset_clearbit
    by assumption.
  unfold Bits_Count, OnesCount64.
  destruct (Z.testbit b n) eqn:Ht.
  - rewrite setbit_same, ones_below_clearbit by (auto; simpl; lia). lia.
  - rewrite clearbit_same by assumption.
    pose proof (ones_below_clearbit 64 (Z.setbit b n) n) as Hc.
    rewrite clearbit_setbit in Hc by (auto; lia).
    rewrite Hc; [lia | simpl; lia |].
    rewrite Z.setbit_eqb, Z.eqb_refl by lia. reflexivity.
Qed.

Lemma Count_after_Set_Unset_witness :
  uint64_ok 9 /\ 0 <= 2 <= 63 /\
  Bits_Count (Bits_Set 9 2) = Bits_Count 9 + 1 /\
  Bits_Count (Bits_Unset 9 2) = Bits_Count 9 - 0.
Proof.
  assert (Hb : uint64_ok 9) by (unfold uint64_ok; lia).
  split; [exact Hb|]. split; [lia|].
  apply (Count_after_Set_Unset 9 2 Hb). lia.
Defined.

(** ** [Singular] *)

Lemma Singular_clearbit b :
  uint64_ok b -> b <> 0 ->
  (Bits_Singular b = true <-> Z.clearbit b (TrailingZeros64 b) = 0).
Proof.
  intros Hb Hnz. unfold Bits_Singular.
  destruct (Z.eqb_spec b 0); [contradiction|]. cbn [negb andb].
  now rewrite clear_lowest, Z.eqb_eq.
Qed.

Lemma pow2_uint64 n : 0 <= n <= 63 -> uint64_ok (2 ^ n) /\ 2 ^ n <> 0.
Proof.
  intros Hn. assert (0 < 2 ^ n) by (apply Z.pow_pos_nonneg; lia).
  assert (2 ^ n < 2 ^ 64) by (apply Z.pow_lt_mono_r; lia).
  unfold uint64_ok. lia.
Qed.

Lemma pow2_lowest n : 0 <= n -> lowest_bit (2 ^ n) n.
Proof.
  intros Hn. split; [assumption|]. split.
  - rewrite Z.pow2_bits_eqb by lia. apply Z.eqb_refl.
  - intros j Hj. rewrite Z.pow2_bits_eqb by lia. apply Z.eqb_neq. lia.
Qed.

(** X7.  [Singular] holds exactly for the fields with one position set:
    the fields [Set(n)] of the empty field, [n] in [[0, 63]]. *)
Theorem Singular_iff_single_position (b : Z) (Hb : uint64_ok b) :
  Bits_Singular b = true <-> exists n, 0 <= n <= 63 /\ b = Bits_Set 0 n.
Proof.
  split.
  - intros Hs. assert (Hnz : b <> 0) by (intros ->; discriminate Hs).
    destruct (TrailingZeros64_lowest b Hb Hnz) as (H63 & H0 & Hset & _).
    apply Singular_clearbit in Hs; [|assumption|assumption].
    rewrite clearbit_lt in Hs by assumption.
    exists (TrailingZeros64 b). split; [lia|].
    unfold Bits_Set. rewrite shl64_one_small, Z.lor_0_l by lia. lia.
  - intros (n & Hn & ->). unfold Bits_Set.
    rewrite shl64_one_small, Z.lor_0_l by lia.
    destruct (pow2_uint64 n Hn) as [Hok Hnz].
    apply Singular_clearbit; [assumption|assumption|].
    replace (TrailingZeros64 (2 ^ n)) with n.
    + rewrite clearbit_lt; [lia | lia | apply pow2_lowest; lia].
    + apply (lowest_bit_unique (2 ^ n)); [apply pow2_lowest; lia|].
      now apply TrailingZeros64_lowest.
Qed.

Lemma Singular_iff_single_position_witness :
  uint64_ok 32 /\ Bits_Singular 32 = true /\
  exists n, 0 <= n <= 63 /\ 32 = Bits_Set 0 n.
Proof.
  assert (Hb : uint64_ok 32) by (unfold uint64_ok; lia).
  split; [exact Hb|]. split; [reflexivity|].
  apply (Singular_iff_single_position 32 Hb). reflexivity.
Defined.

(** X8.  On a non-empty field [Least] is at most [Most], and the two agree
    exactly when the field is [Singular]. *)
Theorem Least_le_Most_eq_iff_Singular (b : Z)
  (Hb : uint64_ok b) (Hne : Bits_Empty b = false) :
  0 <= Bits_Least b <= Bits_Most b /\ Bits_Most b <= 63 /\
  (Bits_Singular b = true <-> Bits_Least b = Bits_Most b).
Proof.
  unfold Bits_Empty in Hne. apply Z.eqb_neq in Hne.
  destruct (TrailingZeros64_lowest b Hb Hne) as (H63 & H0 & Hset & Hlow).
  destruct (LeadingZeros64_highest b Hb Hne) as (Hlz & Hmset & Hhigh).
  rewrite (Singular_clearbit b Hb Hne). unfold Bits_Least, Bits_Most.
  destruct (Z.eqb_spec b 0); [contradiction|].
  set (t := TrailingZeros64 b) in *. set (m := 63 - LeadingZeros64 b) in *.
  assert (Hle : t <= m).
  { destruct (Z.le_gt_cases t m); [assumption|].
    rewrite Hhigh in Hset by lia. discriminate. }
  split; [lia|]. split; [lia|]. split.
  - intros Hz. assert (Hbit : Z.testbit (Z.clearbit b t) m = false)
      by (rewrite Hz; apply Z.bits_0).
    rewrite Z.clearbit_eqb, Hmset in Hbit. cbn [andb] in Hbit.
    apply negb_false_iff, Z.eqb_eq in Hbit. exact Hbit.
  - intros E. apply Z.bits_inj'. intros i Hi.
    rewrite Z.clearbit_eqb, Z.bits_0.
    destruct (Z.eqb_spec t i) as [|Hti]; [apply andb_false_r|].
    destruct (Z.lt_ge_cases i t).
    + rewrite Hlow by lia. reflexivity.
    + rewrite Hhigh by lia. reflexivity.
Qed.

Lemma Least_le_Most_eq_iff_Singular_witness :
  uint64_ok 40 /\ Bits_Empty 40 = false /\
  0 <= Bits_Least 40 <= Bits_Most 40 /\ Bits_Most 40 <= 63 /\
  (Bits_Singular 40 = true <-> Bits_Least 40 = Bits_Most 40).
Proof.
  assert (Hb : uint64_ok 40) by (unfold uint64_ok; lia).
  split; [exact Hb|]. split; [reflexivity|].
  apply (Least_le_Most_eq_iff_Singular 40 Hb). reflexivity.
Defined.

(** ** Iteration and construction *)

Lemma drain_result fuel b l :
  uint64_ok b -> drain fuel (Bits_Iter b) = Some l ->
  ascending l /\
  (forall n, In n l <-> 0 <= n <= 63 /\ Z.testbit b n = true) /\
  Z.of_nat (List.length l) = OnesCount64 b.
Proof.
  intros Hb Hl. destruct (drain_64 b Hb) as (l0 & Hl0 & Hrest).
  assert (E : Some l = Some l0).
  { rewrite <- (Hl0 (Nat.max fuel 65)) by lia. symmetry.
    apply (drain_fuel_le fuel); [lia | exact Hl]. }
  injection E as ->. exact Hrest.
Qed.

Lemma uint64_bit_range b p :
  uint64_ok b -> Z.testbit b p = true -> 0 <= p <= 63.
Proof.
  intros Hb Ht. destruct (Z.lt_ge_cases p 0).
  - rewrite Z.testbit_neg_r in Ht by lia. discriminate.
  - destruct (Z.lt_ge_cases p 64); [lia|].
    rewrite (uint64_high_bits b) in Ht by (auto; lia). discriminate.
Qed.

Lemma Of_bits l p :
  Z.testbit (Of l) p = true <-> In p l /\ 0 <= p <= 63.
Proof.
  unfold Of. rewrite Of_loop_bits, Z.bits_0. intuition discriminate.
Qed.

Lemma Of_uint64 l : uint64_ok (Of l).
Proof. apply Of_loop_uint64. unfold uint64_ok. lia. Qed.

Lemma Of_drain fuel b l :
  uint64_ok b -> drain fuel (Bits_Iter b) = Some l -> Of l = b.
Proof.
  intros Hb Hl. destruct (drain_result fuel b l Hb Hl) as (_ & Hmem & _).
  apply Z.bits_inj. intros p. apply eq_true_iff_eq.
  rewrite Of_bits, Hmem. split; [tauto|].
  intros Ht. pose proof (uint64_bit_range b p Hb Ht). tauto.
Qed.

Lemma ascending_ext l : forall l',
  ascending l -> ascending l' -> (forall n, In n l <-> In n l') -> l = l'.
Proof.
  induction l as [|a l IH]; intros [|a' l'] Hs Hs' Hmem.
  - reflexivity.
  - exfalso. apply (Hmem a'). now left.
  - exfalso. apply (Hmem a). now left.
  - inversion Hs as [|? ? Hl Ha]; inversion Hs' as [|? ? Hl' Ha']; subst.
    rewrite Forall_forall in Ha, Ha'.
    assert (a = a').
    { destruct (proj1 (Hmem a) (or_introl eq_refl)) as [|Hin]; [auto|].
      destruct (proj2 (Hmem a') (or_introl eq_refl)) as [|Hin']; [auto|].
      specialize (Ha _ Hin'). specialize (Ha' _ Hin). lia. }
    subst a'. f_equal. apply IH; try assumption.
    intros n. split; intros Hin.
    + destruct (proj1 (Hmem n) (or_intror Hin)) as [<-|]; [|assumption].
      specialize (Ha _ Hin). lia.
    + destruct (proj2 (Hmem n) (or_intror Hin)) as [<-|]; [|assumption].
      specialize (Ha' _ Hin). lia.
Qed.



(** X10.  Iterating over [Of(l)] yields the positions of [l] that lie in
    [[0, 63]], sorted and without repetition, whatever the order and
    multiplicity of the arguments; an ascending list of positions of
    [[0, 63]] comes back as it was. *)
Theorem iteration_of_Of (l : list Z) :
  exists l',
    (forall fuel, (65 <= fuel)%nat ->
                  drain fuel (Bits_Iter (Of l)) = Some l') /\
    ascending l' /\
    (forall p, In p l' <-> In p l /\ 0 <= p <= 63) /\
    (ascending l -> Forall (fun p => 0 <= p <= 63) l -> l' = l).
Proof.
  destruct (drain_64 (Of l) (Of_uint64 l)) as (l' & Hl' & Hasc & Hmem & _).
  assert (Hmem' : forall p, In p l' <-> In p l /\ 0 <= p <= 63).
  { intros p. rewrite Hmem, Of_bits. tauto. }
  exists l'. split; [assumption|]. split; [assumption|].
  split; [assumption|].
  intros Hsorted Hrange. apply ascending_ext; try assumption.
  intros p. rewrite Hmem'. rewrite Forall_forall in Hrange.
  split; [tauto|]. intros Hin. split; [assumption|now apply Hrange].
Qed.

Lemma iteration_of_Of_witness :
  drain 65 (Bits_Iter (Of [2; 4; 5; 0; 12; 63])) = Some [0; 2; 4; 5; 12; 63] /\
  exists l',
    (forall fuel, (65 <= fuel)%nat ->
                  drain fuel (Bits_Iter (Of [0; 2; 10])) = Some l') /\
    ascending l' /\
    (forall p, In p l' <-> In p [0; 2; 10] /\ 0 <= p <= 63) /\
    (ascending [0; 2; 10] -> Forall (fun p => 0 <= p <= 63) [0; 2; 10] ->
     l' = [0; 2; 10]).
Proof. split; [reflexivity | exact (iteration_of_Of [0; 2; 10])]. Defined.







(** X13.  [Of] sets at most as many bits as it has arguments, and exactly
    that many when the arguments are distinct positions of [[0, 63]]. *)
Theorem Count_of_Of (l : list Z) :
  Bits_Count (Of l) <= Z.of_nat (List.length l) /\
  (NoDup l -> Forall (fun p => 0 <= p <= 63) l ->
   Bits_Count (Of l) = Z.of_nat (List.length l)).
Proof.
  destruct (drain_64 (Of l) (Of_uint64 l)) as (l' & _ & Hasc & Hmem & Hlen).
  unfold Bits_Count. rewrite <- Hlen.
  pose proof (ascending_NoDup l' Hasc) as Hnd. split.
  - apply inj_le. apply NoDup_incl_length; [assumption|].
    intros p Hp. apply Hmem in Hp. destruct Hp as [_ Hp].
    now apply Of_bits in Hp.
  - intros Hnd' Hr. f_equal. apply Permutation_length.
    apply NoDup_Permutation; try assumption.
    intros p. rewrite Hmem, Of_bits. rewrite Forall_forall in Hr.
    split; [tauto|]. intros Hin. specialize (Hr _ Hin). tauto.
Qed.

Lemma Count_of_Of_witness :
  Bits_Count (Of [2; 4; 5; 0; 12; 63]) = 6.
Proof.
  apply (Count_of_Of [2; 4; 5; 0; 12; 63]).
  - repeat constructor; simpl; intuition lia.
  - repeat constructor; lia.
Defined.

(** ** [String] *)

Lemma Bits_String_drain fuel b l :
  drain fuel (Bits_Iter b) = Some l ->
  Bits_String fuel b = Some (String.concat " " (map Itoa l)).
Proof.
  intros Hl. unfold Bits_String.
  rewrite (String_loop_drain _ _ _ _ _ Hl). now destruct l.
Qed.

Lemma map_Some_inj (l l' : list Z) : map Some l = map Some l' -> l = l'.
Proof.
  revert l'. induction l as [|a l IH]; intros [|a' l'] H; try discriminate.
  - reflexivity.
  - cbn in H. injection H as -> H. f_equal. now apply IH.
Qed.

(** X14.  [String] tells fields apart: two fields with the same text are
    the same field. *)
Theorem String_injective (b b' : Z)
  (Hb : uint64_ok b) (Hb' : uint64_ok b')
  (Hs : Bits_String 65 b = Bits_String 65 b') :
  b = b'.
Proof.
  destruct (drain_64 b Hb) as (l & Hl & _ & Hmem & _).
  destruct (drain_64 b' Hb') as (l' & Hl' & _ & Hmem' & _).
  specialize (Hl 65%nat (le_n _)). specialize (Hl' 65%nat (le_n _)).
  rewrite (Bits_String_drain _ _ _ Hl), (Bits_String_drain _ _ _ Hl') in Hs.
  injection Hs as Hs.
  assert (Hpos : forall c k, (forall n, In n k <-> 0 <= n <= 63 /\
                                         Z.testbit c n = true) ->
                             Forall (fun n => 0 <= n) k).
  { intros c k Hk. apply Forall_forall. intros n Hn. apply Hk in Hn. lia. }
  destruct (rendering_spec l (Hpos _ _ Hmem)) as (_ & _ & _ & _ & _ & Hf).
  destruct (rendering_spec l' (Hpos _ _ Hmem')) as (_ & _ & _ & _ & _ & Hf').
  rewrite Hs, Hf' in Hf. apply map_Some_inj in Hf. subst l'.
  rewrite <- (Of_drain 65 b l Hb Hl). now apply (Of_drain 65 b' l).
Qed.

Lemma String_injective_witness :
  uint64_ok 5 /\ Bits_String 65 5 = Bits_String 65 (Of [2; 0]) /\
  5 = Of [2; 0].
Proof.
  assert (Hb : uint64_ok 5) by (unfold uint64_ok; lia).
  split; [exact Hb|]. split; [reflexivity|].
  apply (String_injective 5 (Of [2; 0]) Hb); [apply Of_uint64|reflexivity].
Defined.

(** ** More on [Range] *)

Lemma Range_unfold fuel low high step :
  Range fuel low high step =
  Range_loop fuel (Z.max low 0) (Z.min high 63) step 0.
Proof.
  unfold Range.
  replace (if low <? 0 then 0 else low) with (Z.max low 0)
    by (destruct (Z.ltb_spec low 0); lia).
  replace (if high >? 63 then 63 else high) with (Z.min high 63)
    by (rewrite Z.gtb_ltb; destruct (Z.ltb_spec 63 high); lia).
  reflexivity.
Qed.

Lemma Range_loop_zero_step fuel : forall n high b,
  int_ok n -> n <= high -> Range_loop fuel n high 0 b = None.
Proof.
  induction fuel as [|f IH]; intros n high b Hn Hle; [reflexivity|].
  cbn [Range_loop]. destruct (Z.leb_spec n high); [|lia].
  replace (add_int n 0) with n; [now apply IH|].
  unfold add_int, wrap_int, int_ok in *.
  rewrite Z.add_0_r, Z.mod_small by lia. lia.
Qed.

(** X15.  With step 0 and a non-empty interval after clamping, the loop of
    [Range] never ends: no number of iterations produces a result. *)
Theorem Range_zero_step_never_returns (low high : Z)
  (Hle : Z.max low 0 <= Z.min high 63) :
  forall fuel, Range fuel low high 0 = None.
Proof.
  intros fuel. rewrite Range_unfold. apply Range_loop_zero_step.
  - unfold int_ok. lia.
  - assumption.
Qed.

Lemma Range_zero_step_never_returns_witness :
  Z.max 3 0 <= Z.min 10 63 /\ forall fuel, Range fuel 3 10 0 = None.
Proof. split; [lia | apply Range_zero_step_never_returns; lia]. Defined.

(** X16.  When nothing lies between the clamped ends ([low] above [high],
    [low] above 63 or [high] below 0), [Range] returns the empty field at
    the first comparison, whatever the step, zero and negative steps
    included. *)
Theorem Range_empty_interval (low high step : Z)
  (Hgt : Z.min high 63 < Z.max low 0) :
  forall fuel, Range (S fuel) low high step = Some 0.
Proof.
  intros fuel. rewrite Range_unfold. cbn [Range_loop].
  destruct (Z.leb_spec (Z.max low 0) (Z.min high 63)); [lia|reflexivity].
Qed.

Lemma Range_empty_interval_witness :
  Z.min 3 63 < Z.max 10 0 /\ Range 1 10 3 0 = Some 0 /\
  Range 1 70 80 1 = Some 0 /\ Range 1 (-9) (-1) (-1) = Some 0.
Proof.
  split; [lia|].
  split; [apply (Range_empty_interval 10 3 0); lia|].
  split; [apply (Range_empty_interval 70 80 1); lia|].
  apply (Range_empty_interval (-9) (-1) (-1)); lia.
Defined.







(** ** Equality of fields *)

(** X19.  Two fields are equal exactly when [Test] agrees on them at every
    position of [[0, 63]]: comparing the words compares the sets. *)
Theorem equal_iff_same_Tests (b b' : Z)
  (Hb : uint64_ok b) (Hb' : uint64_ok b') :
  b = b' <-> forall n, 0 <= n <= 63 -> Bits_Test b n = Bits_Test b' n.
Proof.
  split; [now intros ->|].
  intros Hsame. apply Z.bits_inj'. intros i Hi.
  destruct (Z.lt_ge_cases i 64).
  - rewrite <- !Bits_Test_testbit by lia. apply Hsame. lia.
  - now rewrite !uint64_high_bits by (auto; lia).
Qed.

Lemma equal_iff_same_Tests_witness :
  uint64_ok 5 /\ uint64_ok (Of [2; 0]) /\
  forall n, 0 <= n <= 63 -> Bits_Test 5 n = Bits_Test (Of [2; 0]) n.
Proof.
  assert (Hb : uint64_ok 5) by (unfold uint64_ok; lia).
  split; [exact Hb|]. split; [apply Of_uint64|].
  apply (equal_iff_same_Tests 5 (Of [2; 0]) Hb (Of_uint64 _)). reflexivity.
Defined.
